(** * datatable: error objects, captured Python errors and thread jobs

    A shallow embedding of

    - [utils/exceptions.cc]: [exception_to_python], [escape_backticks],
      the classes [Error], [PyError], [Warning] and [HidePythonError];
    - [parallel/thread_job.cc]: [ThreadJob::execute_in_current_thread].

    C++ code that reads or writes the interpreter's error indicator, the
    progress manager or the thread pool is written in a state-and-exception
    monad over an explicit [World]; a C++ [throw] is the [Throw] outcome. *)

From Stdlib Require Import Bool Arith NArith ZArith List Ascii String Lia.
Import ListNotations.

Set Implicit Arguments.
Set Default Proof Using "Type".

Local Open Scope string_scope.

(* ================================================================== *)
(** * The state-and-exception monad *)

Section StateExn.
Variables St Exn : Type.

(** How a call ends: it returns a value, or an exception leaves it.  The
    state reached is kept in both cases. *)
Inductive Outcome (A : Type) : Type :=
| Ret (a : A) (s : St)
| Throw (e : Exn) (s : St).

Definition M (A : Type) : Type := St -> Outcome A.

Definition ret {A} (a : A) : M A := fun s => Ret a s.

Definition throw {A} (e : Exn) : M A := fun s => Throw A e s.

Definition bind {A B} (m : M A) (k : A -> M B) : M B :=
  fun s => match m s with
           | Ret a s' => k a s'
           | Throw _ e s' => Throw B e s'
           end.

Definition gets {A} (f : St -> A) : M A := fun s => Ret (f s) s.

Definition modify (f : St -> St) : M unit := fun s => Ret tt (f s).

(** [try { m } catch (handled& e) { h e }]: an exception the clause does
    not match passes through. *)
Definition try_catch {A} (m : M A) (catches : Exn -> option (M A)) : M A :=
  fun s => match m s with
           | Ret a s' => Ret a s'
           | Throw _ e s' =>
               match catches e with
               | Some h => h s'
               | None => Throw A e s'
               end
           end.

(** A scope with a local object whose destructor [dtor] runs on every way
    out of [body], the normal one and the unwinding one. *)
Definition with_destructor {A} (body : M A) (dtor : St -> St) : M A :=
  fun s => match body s with
           | Ret a s' => Ret a (dtor s')
           | Throw _ e s' => Throw A e (dtor s')
           end.

Definition final_state {A} (o : Outcome A) : St :=
  match o with Ret _ s => s | Throw _ _ s => s end.

Definition returns {A} (o : Outcome A) : bool :=
  match o with Ret _ _ => true | Throw _ _ _ => false end.
End StateExn.

Arguments Ret {St Exn A} a s.
Arguments Throw {St Exn A} e s.
Arguments ret {St Exn A} a _.
Arguments throw {St Exn A} e _.
Arguments gets {St Exn A} f _.
Arguments modify {St Exn} f _.

Declare Scope monad_scope.
Delimit Scope monad_scope with monad.
Notation "x <- m ;; k" := (bind m (fun x => k))
  (at level 61, m at next level, right associativity) : monad_scope.
Notation "m ;;; k" := (bind m (fun _ => k))
  (at level 61, right associativity) : monad_scope.

(* ================================================================== *)
(** * The host interpreter (CPython C API) *)

Module Python.

(** Objects of the host.  The exception classes the code names are told
    apart; any other object (a class of [datatable.exceptions], an
    exception instance, a traceback) is an address. *)
Inductive PyObject : Type :=
| PyExc_Exception
| PyExc_RuntimeError
| PyExc_AssertionError
| PyExc_KeyboardInterrupt
| PyExc_FutureWarning
| PyExc_RuntimeWarning
| PyUnicode (s : string)
| PyObjectAt (addr : N).

(** [PyObject*]; [None] is [nullptr]. *)
Definition PyObjectPtr : Type := option PyObject.
Definition nullptr : PyObjectPtr := None.

Definition PyObject_eqb (a b : PyObject) : bool :=
  match a, b with
  | PyExc_Exception, PyExc_Exception => true
  | PyExc_RuntimeError, PyExc_RuntimeError => true
  | PyExc_AssertionError, PyExc_AssertionError => true
  | PyExc_KeyboardInterrupt, PyExc_KeyboardInterrupt => true
  | PyExc_FutureWarning, PyExc_FutureWarning => true
  | PyExc_RuntimeWarning, PyExc_RuntimeWarning => true
  | PyUnicode s, PyUnicode t => String.eqb s t
  | PyObjectAt m, PyObjectAt n => N.eqb m n
  | _, _ => false
  end.

(** Pointer comparison [p == q]. *)
Definition ptr_eqb (p q : PyObjectPtr) : bool :=
  match p, q with
  | None, None => true
  | Some a, Some b => PyObject_eqb a b
  | _, _ => false
  end.

(** A pointer in a condition: [if (p)]. *)
Definition ptr_true (p : PyObjectPtr) : bool :=
  match p with Some _ => true | None => false end.

(** The error indicator of the thread state: [curexc_type],
    [curexc_value], [curexc_traceback]. *)
Record ErrorIndicator : Type := mkIndicator {
  curexc_type : PyObjectPtr;
  curexc_value : PyObjectPtr;
  curexc_traceback : PyObjectPtr
}.

Definition no_error : ErrorIndicator := mkIndicator nullptr nullptr nullptr.

End Python.
Export Python.

(* ================================================================== *)
(** * The world the error code runs in *)

(** Calls to the collaborators of [exceptions.cc], in the order made. *)
Inductive Event : Type :=
| Ev_PyErr_SetString (cls : PyObjectPtr) (msg : string)
| Ev_PyErr_WarnEx (category : PyObjectPtr) (msg : string) (stack_level : Z)
| Ev_set_status_cancelled
| Ev_assertion_failed (expr : string).

Record World : Type := mkWorld {
  (** the interpreter's error indicator: the ambient pending error *)
  indicator : ErrorIndicator;
  (** collaborator calls so far, oldest first *)
  events : list Event;
  (** [dt::num_threads_in_team()] *)
  team_size : N;
  (** the [warnings] filter: does a warning of this category and text
      turn into an error? *)
  warnings_filter : PyObjectPtr -> string -> bool;
  (** the next allocation of a string fails *)
  heap_exhausted : bool
}.

Definition set_indicator (i : ErrorIndicator) (w : World) : World :=
  mkWorld i (events w) (team_size w) (warnings_filter w) (heap_exhausted w).

Definition log_event (ev : Event) (w : World) : World :=
  mkWorld (indicator w) (events w ++ [ev]) (team_size w)
          (warnings_filter w) (heap_exhausted w).

(** ** Strings handed to C *)

Definition NUL : ascii := "000"%char.

(** [s.c_str()] read as a C string: the bytes before the first NUL. *)
Fixpoint c_str (s : string) : string :=
  match s with
  | EmptyString => EmptyString
  | String c rest => if Ascii.eqb c NUL then EmptyString else String c (c_str rest)
  end.

(** ** Error-indicator functions of the C API *)

Definition PyErr_Occurred (w : World) : PyObjectPtr :=
  curexc_type (indicator w).

(** [PyErr_Fetch(&t, &v, &tb)]: hands out the three fields and clears the
    indicator; with nothing pending the three are null. *)
Definition PyErr_Fetch (w : World) : ErrorIndicator * World :=
  (indicator w, set_indicator no_error w).

(** [PyErr_Restore(t, v, tb)]: the indicator becomes the three arguments;
    what was pending is dropped. *)
Definition PyErr_Restore (t v tb : PyObjectPtr) (w : World) : World :=
  set_indicator (mkIndicator t v tb) w.

(** [PyErr_SetString(cls, msg)]: the host error sink. *)
Definition PyErr_SetString (cls : PyObjectPtr) (msg : string) (w : World) : World :=
  set_indicator (mkIndicator cls (Some (PyUnicode msg)) nullptr)
                (log_event (Ev_PyErr_SetString cls msg) w).

(** [PyErr_WarnEx(category, msg, stack_level)]: the warning channel.  It
    answers 0, or -1 with the warning raised as an exception when the
    filter says so.  A null category stands for [RuntimeWarning]. *)
Definition PyErr_WarnEx (category : PyObjectPtr) (msg : string) (stack_level : Z)
    (w : World) : Z * World :=
  let w1 := log_event (Ev_PyErr_WarnEx category msg stack_level) w in
  if warnings_filter w category msg then
    let cls := match category with
               | Some c => Some c
               | None => Some PyExc_RuntimeWarning
               end in
    ((-1)%Z, set_indicator (mkIndicator cls (Some (PyUnicode msg)) nullptr) w1)
  else (0%Z, w1).

(** Modelled from the spec: [dt::progress::manager->set_status_cancelled()]
    (progress/progress_manager.h is not part of the sources): the
    cancellation marker's mark-cancelled call, which is recorded. *)
Definition set_status_cancelled (w : World) : World :=
  log_event Ev_set_status_cancelled w.

(** Modelled from the spec: [dt::num_threads_in_team()] (parallel/api.h is
    not part of the sources): the team size counter, zero when no worker
    thread is active. *)
Definition num_threads_in_team (w : World) : N := team_size w.

(* ================================================================== *)
(** * utils/exceptions.cc *)

(** ** The classes *)

(** [class Error : public std::exception]: the message stream [error] (its
    contents) and the Python class [pycls_] the error is reported as. *)
Record Error : Type := mkError {
  error : string;
  pycls_ : PyObjectPtr
}.

(** [class PyError : public Error]: a Python error taken out of the
    interpreter; the three handles are [mutable] members. *)
Record PyError : Type := mkPyError {
  base : Error;
  exc_type : PyObjectPtr;
  exc_value : PyObjectPtr;
  exc_traceback : PyObjectPtr
}.

(** [class HidePythonError]. *)
Record HidePythonError : Type := mkHidePythonError {
  ptype_ : PyObjectPtr;
  pvalue_ : PyObjectPtr;
  ptraceback_ : PyObjectPtr
}.

(** What a [throw] can carry.  [Error] and [PyError] derive from
    [std::exception]; [what] is the [const char*] of any other standard
    exception, possibly null. *)
Inductive std_exception : Type :=
| StdException (what : option string)
| ErrorExc (e : Error)
| PyErrorExc (e : PyError).

Inductive cpp_exception : Type :=
| Std (e : std_exception)
| NonStd (tag : N).

(** [e.what()].  The code below asks it of exceptions that are not an
    [Error] only; for an [Error] the library's default text stands in. *)
Definition what_of (e : std_exception) : option string :=
  match e with
  | StdException w => w
  | ErrorExc _ | PyErrorExc _ => Some "std::exception"
  end.

(** [catch (const std::exception& e)] *)
Definition catch_std_exception {A} (h : std_exception -> M World cpp_exception A)
    (e : cpp_exception) : option (M World cpp_exception A) :=
  match e with
  | Std se => Some (h se)
  | NonStd _ => None
  end.

Definition bad_alloc : cpp_exception := Std (StdException (Some "std::bad_alloc")).

Local Open Scope monad_scope.

(** [error.str()]: a copy of the stream's contents; the copy allocates and
    throws [std::bad_alloc] when it cannot. *)
Definition stream_str (e : Error) : M World cpp_exception string :=
  fun w => if heap_exhausted w then Throw bad_alloc w else Ret (error e) w.

(** [error << v] for a string and for a single [char] written raw. *)
Definition stream_put (v : string) (e : Error) : Error :=
  mkError (error e ++ v) (pycls_ e).

Definition stream_put_char (c : ascii) (e : Error) : Error :=
  stream_put (String c EmptyString) e.

(** ** [is_string_empty] *)

Definition is_space (c : ascii) : bool :=
  Ascii.eqb c " "%char || Ascii.eqb c "009"%char
  || Ascii.eqb c "010"%char || Ascii.eqb c "013"%char.

Fixpoint all_spaces (msg : string) : bool :=
  match msg with
  | EmptyString => true
  | String c rest => if negb (is_space c) then false else all_spaces rest
  end.

Definition is_string_empty (msg : option string) : bool :=
  match msg with
  | None => true
  | Some m => all_spaces (c_str m)
  end.

(** ** [escape_backticks] *)

Definition backtick : ascii := "096"%char.
Definition backslash : ascii := "092"%char.

Definition is_tick_or_slash (c : ascii) : bool :=
  Ascii.eqb c backtick || Ascii.eqb c backslash.

(** [size_t] arithmetic. *)
Definition size_t_add (a b : N) : N := ((a + b) mod 2 ^ 64)%N.

(** The first loop: [count += (c == '`' || c == '\\')]. *)
Fixpoint count_loop (str : string) (count : N) : N :=
  match str with
  | EmptyString => count
  | String c rest =>
      count_loop rest (size_t_add count (if is_tick_or_slash c then 1 else 0)%N)
  end.

(** The second loop, appending to [out]. *)
Fixpoint escape_loop (str : string) (out : string) : string :=
  match str with
  | EmptyString => out
  | String c rest =>
      let out1 := if is_tick_or_slash c
                  then out ++ String backslash EmptyString else out in
      escape_loop rest (out1 ++ String c EmptyString)
  end.

(** [out.reserve(str.size() + count)] changes no value and is left out. *)
Definition escape_backticks (str : string) : string :=
  let count := count_loop str 0%N in
  if (count =? 0)%N then str
  else escape_loop str EmptyString.

(** ** [Error::operator<<(char)] *)

(** [static_cast<char>((d <= 9 ? '0' : 'a' - 10) + d)] *)
Definition hex_digit (d : N) : ascii :=
  ascii_of_N ((if (d <=? 9)%N then 48 else 97 - 10) + d)%N.

Definition Error_put_char (c : ascii) (e : Error) : Error :=
  let uc := N_of_ascii c in
  if (uc <? 32)%N || (128 <=? uc)%N || (uc =? 96)%N || (uc =? 92)%N then
    let e := stream_put_char backslash e in
    if Ascii.eqb c "010"%char then stream_put_char "n"%char e
    else if Ascii.eqb c "013"%char then stream_put_char "r"%char e
    else if Ascii.eqb c "009"%char then stream_put_char "t"%char e
    else if Ascii.eqb c backslash then stream_put_char backslash e
    else if Ascii.eqb c backtick then stream_put_char backtick e
    else
      let d1 := N.shiftr uc 4 in
      let d2 := N.land uc 15 in
      stream_put_char (hex_digit d2)
        (stream_put_char (hex_digit d1)
          (stream_put (String backslash "x") e))
  else stream_put_char c e.

(** ** [Error::to_python], [Error::is_keyboard_interrupt] *)

Definition Error_to_python (e : Error) : M World cpp_exception unit :=
  try_catch
    (errstr <- stream_str e ;;
     modify (PyErr_SetString (pycls_ e) (c_str errstr)))
    (catch_std_exception (fun ex =>
       modify (PyErr_SetString (Some PyExc_RuntimeError)
                 (match what_of ex with Some m => c_str m | None => "" end)))).

Definition Error_is_keyboard_interrupt (e : Error) : bool := false.

(** ** [PyError] *)

Definition PyError_is_keyboard_interrupt (e : PyError) : bool :=
  ptr_eqb (exc_type e) (Some PyExc_KeyboardInterrupt).

Definition PyError_is_assertion_error (e : PyError) : bool :=
  ptr_eqb (exc_type e) (Some PyExc_AssertionError).

(** [PyError::PyError()] *)
Definition PyError_new : M World cpp_exception PyError :=
  fun w =>
    let (fetched, w1) := PyErr_Fetch w in
    let this := mkPyError (mkError "" nullptr) (curexc_type fetched)
                          (curexc_value fetched) (curexc_traceback fetched) in
    if PyError_is_keyboard_interrupt this
    then Ret this (set_status_cancelled w1)
    else Ret this w1.

(** [PyError::to_python()]: the object after the call is the result. *)
Definition PyError_to_python (e : PyError) : M World cpp_exception PyError :=
  fun w =>
    let w1 := PyErr_Restore (exc_type e) (exc_value e) (exc_traceback e) w in
    Ret (mkPyError (base e) nullptr nullptr nullptr) w1.

(** ** [Warning::emit] *)

(** [class Warning : public Error] adds no member. *)
Definition Warning : Type := Error.

Definition Warning_emit (e : Warning) : M World cpp_exception unit :=
  errstr <- stream_str e ;;
  fun w =>
    let (r, w1) := PyErr_WarnEx (pycls_ e) (c_str errstr) 1 w in
    if negb (r =? 0)%Z
    then (pe <- PyError_new ;; throw (Std (PyErrorExc pe))) w1
    else Ret tt w1.

(** ** [HidePythonError] *)

(** The constructor. *)
Definition HidePythonError_new : M World cpp_exception HidePythonError :=
  fun w =>
    if ptr_true (PyErr_Occurred w) then
      let (fetched, w1) := PyErr_Fetch w in
      Ret (mkHidePythonError (curexc_type fetched) (curexc_value fetched)
                             (curexc_traceback fetched)) w1
    else Ret (mkHidePythonError nullptr nullptr nullptr) w.

(** The destructor. *)
Definition HidePythonError_delete (h : HidePythonError) (w : World) : World :=
  if ptr_true (ptype_ h)
  then PyErr_Restore (ptype_ h) (pvalue_ h) (ptraceback_ h) w
  else w.

(** [{ HidePythonError h; body }]: a block that declares the guard. *)
Definition hide_python_error {A} (body : M World cpp_exception A)
    : M World cpp_exception A :=
  h <- HidePythonError_new ;;
  with_destructor body (HidePythonError_delete h).

(** ** [exception_to_python] *)

Section Build.
(** The build: [true] when assertions are compiled out. *)
Variable NDEBUG : bool.

(** Modelled from the spec: the macro [wassert] (utils/assert.h is not
    part of the sources): in a debug build a condition that does not hold
    is reported as an invariant violation; other builds do not check. *)
Definition wassert (cond : World -> bool) (expr : string)
    : M World cpp_exception unit :=
  fun w =>
    if NDEBUG then Ret tt w
    else if cond w then Ret tt w
    else Ret tt (log_event (Ev_assertion_failed expr) w).

Definition exception_to_python (e : std_exception) : M World cpp_exception unit :=
  wassert (fun w => (num_threads_in_team w =? 0)%N)
          "dt::num_threads_in_team() == 0" ;;;
  match e with
  | ErrorExc err => Error_to_python err
  | PyErrorExc perr => (_ <- PyError_to_python perr ;; ret tt)
  | StdException _ =>
      occurred <- gets PyErr_Occurred ;;
      if negb (ptr_true occurred) then
        let msg := what_of e in
        if is_string_empty msg
        then modify (PyErr_SetString (Some PyExc_Exception) "unknown error")
        else modify (PyErr_SetString (Some PyExc_Exception)
                       (match msg with Some m => c_str m | None => "" end))
      else ret tt
  end.
End Build.

(** ** Reading the event log *)

Definition is_assertion_failed (ev : Event) : bool :=
  match ev with Ev_assertion_failed _ => true | _ => false end.

Definition no_assertion_failed (evs : list Event) : bool :=
  forallb (fun ev => negb (is_assertion_failed ev)) evs.

(** ** The escaping rule, in the words of the specification

    Any byte outside the printable ASCII range, and the backtick and the
    backslash, is escaped: newline, carriage return, tab, backslash and
    backtick by a backslash and a letter or the character itself, anything
    else as backslash, x and two lowercase hexadecimal digits. *)

Definition printable_ascii (c : ascii) : bool :=
  (32 <=? N_of_ascii c)%N && (N_of_ascii c <=? 126)%N.

Definition offending (c : ascii) : bool :=
  negb (printable_ascii c) || Ascii.eqb c backtick || Ascii.eqb c backslash.

Definition lower_hex (d : N) : ascii :=
  match String.get (N.to_nat d) "0123456789abcdef" with
  | Some h => h
  | None => "?"%char
  end.

Definition spec_escape_char (c : ascii) : string :=
  if negb (offending c) then String c EmptyString
  else if Ascii.eqb c "010"%char then String backslash "n"
  else if Ascii.eqb c "013"%char then String backslash "r"
  else if Ascii.eqb c "009"%char then String backslash "t"
  else if Ascii.eqb c backslash then String backslash (String backslash EmptyString)
  else if Ascii.eqb c backtick then String backslash (String backtick EmptyString)
  else String backslash
         (String "x" (String (lower_hex (N_of_ascii c / 16))
                        (String (lower_hex (N_of_ascii c mod 16)) EmptyString))).

Fixpoint spec_escape (s : string) : string :=
  match s with
  | EmptyString => EmptyString
  | String c rest => spec_escape_char c ++ spec_escape rest
  end.

(** ** What the two functions of the source write, stated directly *)

(** The text [Error::operator<<(char)] adds to an empty stream. *)
Definition emitted (c : ascii) : string :=
  error (Error_put_char c (mkError EmptyString nullptr)).

(** A backtick or backslash with a backslash in front, any other byte as it
    is. *)
Definition tick_slash_escaped (c : ascii) : string :=
  if is_tick_or_slash c then String backslash (String c EmptyString)
  else String c EmptyString.

Fixpoint escape_each (s : string) : string :=
  match s with
  | EmptyString => EmptyString
  | String c rest => tick_slash_escaped c ++ escape_each rest
  end.

Fixpoint has_tick_or_slash (s : string) : bool :=
  match s with
  | EmptyString => false
  | String c rest => is_tick_or_slash c || has_tick_or_slash rest
  end.

Fixpoint all_printable (s : string) : bool :=
  match s with
  | EmptyString => true
  | String c rest => printable_ascii c && all_printable rest
  end.

Definition newline_string : string := String "010"%char EmptyString.

(** The number of backticks and backslashes, unbounded. *)
Fixpoint ticks_and_slashes (s : string) : N :=
  match s with
  | EmptyString => 0%N
  | String c rest =>
      ((if is_tick_or_slash c then 1 else 0) + ticks_and_slashes rest)%N
  end.

(* ================================================================== *)
(** * parallel/thread_job.cc *)

Module Parallel.
Section Jobs.
(** The program state the job and its tasks work on, and what they may
    throw. *)
Variables St Exn : Type.

(** [class ThreadWorker], only ever passed by pointer. *)
Variable ThreadWorker : Type.

(** [class thread_task]: [virtual void execute(ThreadWorker* ) = 0]. *)
Class thread_task (T : Type) : Type := {
  execute : T -> option ThreadWorker -> M St Exn unit
}.

(** [class ThreadJob]: the two virtual methods.  A null task pointer is
    [None]. *)
Class ThreadJob (J T : Type) : Type := {
  get_next_task : J -> N -> M St Exn (option T);
  abort_execution : J -> M St Exn unit
}.

(** [ThreadJob::abort_execution], the default implementation. *)
Definition ThreadJob_abort_execution {J : Type} (this : J) : M St Exn unit :=
  ret tt.

(** Modelled from the spec: [dt::this_thread_index()] (parallel/api.h is
    not part of the sources): the worker index of the calling thread. *)
Variable this_thread_index : St -> N.

Context {J T : Type} `{thread_task T} `{ThreadJob J T}.

(** The [while (true)] loop of [execute_in_current_thread]; [None] when
    [fuel] iterations were not enough to reach the [break]. *)
Fixpoint execute_loop (fuel : nat) (this : J) (ith : N) (s : St)
    : option (Outcome St Exn unit) :=
  match fuel with
  | O => None
  | S fuel' =>
      match get_next_task this ith s with
      | Throw e s1 => Some (Throw e s1)
      | Ret None s1 => Some (Ret tt s1)
      | Ret (Some task) s1 =>
          match execute task None s1 with
          | Throw e s2 => Some (Throw e s2)
          | Ret _ s2 => execute_loop fuel' this ith s2
          end
      end
  end.

Definition execute_in_current_thread (fuel : nat) (this : J) (s : St)
    : option (Outcome St Exn unit) :=
  let ith := this_thread_index s in
  execute_loop fuel this ith s.

(** [pulled ith s tasks s']: from state [s] the job handed [tasks] to
    worker [ith], one call of [get_next_task] each, and every task was run
    to its end before the next call; [s'] is the state after the last
    one. *)
Inductive pulled (this : J) (ith : N) : St -> list T -> St -> Prop :=
| pulled_nil s : pulled this ith s [] s
| pulled_cons s task s1 u s2 tasks s3 :
    get_next_task this ith s = Ret (Some task) s1 ->
    execute task None s1 = Ret u s2 ->
    pulled this ith s2 tasks s3 ->
    pulled this ith s (task :: tasks) s3.

(** How the loop ends from state [s]: the next call of [get_next_task]
    returns null and the driver returns; or that call throws; or it hands
    out a task whose [execute] throws.  [r] is what the driver's caller
    sees. *)
Inductive stops (this : J) (ith : N) (s : St) : Outcome St Exn unit -> Prop :=
| stops_null s1 :
    get_next_task this ith s = Ret None s1 ->
    stops this ith s (Ret tt s1)
| stops_get_throws e s1 :
    get_next_task this ith s = Throw e s1 ->
    stops this ith s (Throw e s1)
| stops_task_throws task s1 e s2 :
    get_next_task this ith s = Ret (Some task) s1 ->
    execute task None s1 = Throw e s2 ->
    stops this ith s (Throw e s2).
End Jobs.
End Parallel.

(* ================================================================== *)
(** * A job used to run the driver on concrete input *)

Module QueueJob.
(** The job is a queue of task numbers; task 0 throws its own number, any
    other task adds itself to the sum of the tasks done. *)
Record state : Type := mkState {
  queue : list nat;
  done : nat;
  worker : N
}.

Definition run_task (t : nat) (_ : option unit) : M state nat unit :=
  fun s => match t with
           | O => Throw 0 s
           | S _ => Ret tt (mkState (queue s) (done s + t) (worker s))
           end.

Definition next (_ : unit) (ith : N) : M state nat (option nat) :=
  fun s => match queue s with
           | [] => Ret None s
           | t :: q => Ret (Some t) (mkState q (done s) (worker s))
           end.

#[global] Instance task_nat : Parallel.thread_task state nat unit nat :=
  {| Parallel.execute := run_task |}.

#[global] Instance job_unit : Parallel.ThreadJob state nat unit nat :=
  {| Parallel.get_next_task := next;
     Parallel.abort_execution := @Parallel.ThreadJob_abort_execution state nat unit |}.
End QueueJob.

(* ================================================================== *)
(** * Worlds and code used to run the error functions on concrete input *)

Module Sample.
(** Two classes of [datatable.exceptions]. *)
Definition DtExc_ValueError : PyObjectPtr := Some (PyObjectAt 1).
Definition DtExc_TypeError : PyObjectPtr := Some (PyObjectAt 2).
Definition DtWrn_DatatableWarning : PyObjectPtr := Some (PyObjectAt 3).

(** Nothing pending, no team running, warnings shown, memory left. *)
Definition quiet : World :=
  mkWorld no_error [] 0 (fun _ _ => false) false.

(** As [quiet], with a ValueError pending. *)
Definition value_error : ErrorIndicator :=
  mkIndicator DtExc_ValueError (Some (PyUnicode "bad value")) nullptr.

Definition failing : World := set_indicator value_error quiet.

(** As [quiet], with every warning turned into an error. *)
Definition strict : World :=
  mkWorld no_error [] 0 (fun _ _ => true) false.

(** Code that raises a TypeError in the interpreter and returns. *)
Definition raise_type_error : M World cpp_exception unit :=
  modify (PyErr_SetString DtExc_TypeError "bad type").

Definition type_error : ErrorIndicator :=
  mkIndicator DtExc_TypeError (Some (PyUnicode "bad type")) nullptr.

Definition a_warning : Error := mkError "slow path" DtWrn_DatatableWarning.
End Sample.

(* ================================================================== *)
(** * utils/exceptions.cc, the rest of [Error] and [PyError] *)

(** [Error::Error(PyObject* exception_class)]: an empty stream. *)
Definition Error_new (exception_class : PyObjectPtr) : Error :=
  mkError EmptyString exception_class.

(** [Error::to_string()]: [return error.str()]. *)
Definition Error_to_string (e : Error) : M World cpp_exception string :=
  stream_str e.

(** [Error::operator<<(const std::string&)] and
    [Error::operator<<(const char* )], the second on a non-null C string. *)
Definition Error_put_string (v : string) (e : Error) : Error :=
  stream_put v e.

Definition Error_put_cstr (v : string) (e : Error) : Error :=
  stream_put (c_str v) e.

(** One [<<] of a chain: a [std::string], a C string or a [char]. *)
Inductive fragment : Type :=
| FString (v : string)
| FCStr (v : string)
| FChar (c : ascii).

Definition Error_put (f : fragment) (e : Error) : Error :=
  match f with
  | FString v => Error_put_string v e
  | FCStr v => Error_put_cstr v e
  | FChar c => Error_put_char c e
  end.

(** [e << f1 << f2 << ...], left to right. *)
Definition Error_put_all (fs : list fragment) (e : Error) : Error :=
  fold_left (fun acc f => Error_put f acc) fs e.

(** The text one fragment stands for. *)
Definition rendering (f : fragment) : string :=
  match f with
  | FString v => v
  | FCStr v => c_str v
  | FChar c => emitted c
  end.

Fixpoint concat_strings (l : list string) : string :=
  match l with
  | [] => EmptyString
  | s :: rest => s ++ concat_strings rest
  end.

(** [for (char c : s) e << c]. *)
Fixpoint Error_put_chars (s : string) (e : Error) : Error :=
  match s with
  | EmptyString => e
  | String c rest => Error_put_chars rest (Error_put_char c e)
  end.

(** [Error& Error::operator=(Error&& other)], the branch compiled by
    everything but gcc 4: both members are swapped.  The pair is [*this]
    and [other] after the call. *)
Definition Error_move_assign (this other : Error) : Error * Error :=
  (mkError (error other) (pycls_ other), mkError (error this) (pycls_ this)).

(** [Error::Error(Error&& other) : Error(nullptr)]. *)
Definition Error_move_new (other : Error) : Error * Error :=
  Error_move_assign (Error_new nullptr) other.

(** [PyError::PyError(PyError&& other)]: the new object and [other] after
    the call. *)
Definition PyError_move_new (other : PyError) : PyError * PyError :=
  let (b, other_base) := Error_move_new (base other) in
  (mkPyError b (exc_type other) (exc_value other) (exc_traceback other),
   mkPyError other_base nullptr nullptr nullptr).

(** [Py_XDECREF(p)]: the reference given up, none for a null pointer. *)
Definition Py_XDECREF (p : PyObjectPtr) : list PyObject :=
  match p with
  | Some o => [o]
  | None => []
  end.

(** [PyError::~PyError()]: the references the destructor gives up. *)
Definition PyError_delete (e : PyError) : list PyObject :=
  (Py_XDECREF (exc_type e) ++ Py_XDECREF (exc_value e)
   ++ Py_XDECREF (exc_traceback e))%list.

(** The references an error indicator holds. *)
Definition held (i : ErrorIndicator) : list PyObject :=
  (Py_XDECREF (curexc_type i) ++ Py_XDECREF (curexc_value i)
   ++ Py_XDECREF (curexc_traceback i))%list.

(** ** Reading texts and logs *)

Fixpoint all_bytes (p : ascii -> bool) (s : string) : bool :=
  match s with
  | EmptyString => true
  | String c rest => p c && all_bytes p rest
  end.

(** A byte from 0x20 to 0x7f. *)
Definition seven_bit_text (c : ascii) : bool :=
  (32 <=? N_of_ascii c)%N && (N_of_ascii c <=? 127)%N.

(** Reading an escaped text from the left: a backslash must be followed by
    a backtick or a backslash, and no backtick stands on its own. *)
Fixpoint well_escaped (s : string) : bool :=
  match s with
  | EmptyString => true
  | String c rest =>
      if Ascii.eqb c backslash then
        match rest with
        | EmptyString => false
        | String d rest' => is_tick_or_slash d && well_escaped rest'
        end
      else if Ascii.eqb c backtick then false
      else well_escaped rest
  end.

(** Dropping the backslash in front of each escaped character. *)
Fixpoint unescape_backticks (s : string) : string :=
  match s with
  | EmptyString => EmptyString
  | String c rest =>
      if Ascii.eqb c backslash then
        match rest with
        | EmptyString => String c EmptyString
        | String d rest' => String d (unescape_backticks rest')
        end
      else String c (unescape_backticks rest)
  end.

Definition hex_value (h : ascii) : N :=
  let n := N_of_ascii h in
  if (n <=? 57)%N then (n - 48)%N else (n - 87)%N.

(** Reading back the text [operator<<(char)] writes for one byte. *)
Definition unemit (s : string) : option ascii :=
  match s with
  | String c EmptyString => Some c
  | String _ (String d EmptyString) =>
      if Ascii.eqb d "n"%char then Some "010"%char
      else if Ascii.eqb d "r"%char then Some "013"%char
      else if Ascii.eqb d "t"%char then Some "009"%char
      else Some d
  | String _ (String _ (String _ (String h1 (String h2 EmptyString)))) =>
      Some (ascii_of_N (16 * hex_value h1 + hex_value h2))
  | _ => None
  end.

(** The calls of [PyErr_SetString] in a log. *)
Definition is_sink_call (ev : Event) : bool :=
  match ev with Ev_PyErr_SetString _ _ => true | _ => false end.

Definition sink_calls (evs : list Event) : nat :=
  List.length (filter is_sink_call evs).

(** ** A job that never runs out *)

Module EndlessJob.
(** The state counts the tasks done; every pull hands out a task. *)
Definition run_task (t : nat) (_ : option unit) : M nat nat unit :=
  fun s => Ret tt (s + t).

Definition next (_ : bool) (ith : N) : M nat nat (option nat) :=
  fun s => Ret (Some 1) s.

#[global] Instance endless_task : Parallel.thread_task nat nat unit nat :=
  {| Parallel.execute := run_task |}.

#[global] Instance endless_job : Parallel.ThreadJob nat nat bool nat :=
  {| Parallel.get_next_task := next;
     Parallel.abort_execution := @Parallel.ThreadJob_abort_execution nat nat bool |}.
End EndlessJob.

(* ================================================================== *)
(** * Facts about the host model *)

Lemma PyObject_eqb_eq (a b : PyObject) : PyObject_eqb a b = true <-> a = b.
Proof.
  destruct a, b; simpl; split; intro E;
    try reflexivity; try discriminate E.
  - apply String.eqb_eq in E. now subst.
  - injection E as ->. apply String.eqb_refl.
  - apply N.eqb_eq in E. now subst.
  - injection E as ->. apply N.eqb_refl.
Qed.

Lemma ptr_eqb_eq (p q : PyObjectPtr) : ptr_eqb p q = true <-> p = q.
Proof.
  destruct p as [a|], q as [b|]; simpl; split; intro E;
    try reflexivity; try discriminate E.
  - apply PyObject_eqb_eq in E. now subst.
  - injection E as ->. now apply PyObject_eqb_eq.
Qed.

Lemma ptr_true_nonnull (p : PyObjectPtr) : ptr_true p = true <-> p <> nullptr.
Proof.
  destruct p as [a|]; simpl; split; intro E.
  - discriminate.
  - reflexivity.
  - discriminate E.
  - now elim E.
Qed.

Lemma indicator_set (i : ErrorIndicator) (w : World) :
  indicator (set_indicator i w) = i.
Proof. reflexivity. Qed.

Lemma indicator_eta (i : ErrorIndicator) :
  mkIndicator (curexc_type i) (curexc_value i) (curexc_traceback i) = i.
Proof. now destruct i. Qed.

(* ================================================================== *)
(** * [PyError]: capture and restore *)

Lemma PyError_new_spec (w : World) :
  exists pe,
    PyError_new w =
      Ret pe (if PyError_is_keyboard_interrupt pe
              then set_status_cancelled (set_indicator no_error w)
              else set_indicator no_error w)
    /\ exc_type pe = curexc_type (indicator w)
    /\ exc_value pe = curexc_value (indicator w)
    /\ exc_traceback pe = curexc_traceback (indicator w).
Proof.
  unfold PyError_new, PyErr_Fetch.
  set (pe := mkPyError _ _ _ _).
  exists pe. destruct (PyError_is_keyboard_interrupt pe); auto.
Qed.

(** C1. Whatever is pending, nothing included: building a [PyError] takes
    the pending error out of the interpreter and leaves nothing pending;
    [to_python] on that object then puts back the very error indicator
    there was before the capture, and the object's three handles are null
    afterwards. *)
Theorem PyError_capture_restore_round_trip (w : World) :
  exists pe w1 pe' w2,
    PyError_new w = Ret pe w1
    /\ indicator w1 = no_error
    /\ mkIndicator (exc_type pe) (exc_value pe) (exc_traceback pe) = indicator w
    /\ PyError_to_python pe w1 = Ret pe' w2
    /\ indicator w2 = indicator w
    /\ exc_type pe' = nullptr
    /\ exc_value pe' = nullptr
    /\ exc_traceback pe' = nullptr.
Proof.
  destruct (PyError_new_spec w) as (pe & Hnew & Ht & Hv & Htb).
  eexists pe, _, _, _.
  split; [exact Hnew|].
  assert (Hcapt : mkIndicator (exc_type pe) (exc_value pe) (exc_traceback pe)
                  = indicator w).
  { rewrite Ht, Hv, Htb. apply indicator_eta. }
  split; [now destruct (PyError_is_keyboard_interrupt pe)|].
  split; [exact Hcapt|].
  split; [reflexivity|].
  split; [|now repeat split].
  unfold PyErr_Restore. rewrite indicator_set. exact Hcapt.
Qed.

(* ================================================================== *)
(** * [HidePythonError] *)

Lemma HidePythonError_new_pending (w : World) :
  PyErr_Occurred w <> nullptr ->
  HidePythonError_new w =
    Ret (mkHidePythonError (curexc_type (indicator w))
           (curexc_value (indicator w)) (curexc_traceback (indicator w)))
        (set_indicator no_error w).
Proof.
  intro P. apply ptr_true_nonnull in P.
  unfold HidePythonError_new. now rewrite P.
Qed.

Lemma HidePythonError_new_nothing (w : World) :
  PyErr_Occurred w = nullptr ->
  HidePythonError_new w = Ret (mkHidePythonError nullptr nullptr nullptr) w.
Proof.
  intro P. unfold HidePythonError_new. now rewrite P.
Qed.

(** C2. With an error A pending when the guard is built, the code in the
    scope runs with nothing pending, and whatever error indicator B it
    leaves behind, on return or on a throw, the indicator after the guard
    is destroyed is A: B is dropped by the restore. *)
Theorem HidePythonError_restores_saved_error
    (A : Type) (body : M World cpp_exception A) (w : World) (B : ErrorIndicator) :
  PyErr_Occurred w <> nullptr ->
  indicator (final_state (body (set_indicator no_error w))) = B ->
  B <> indicator w ->
  indicator (final_state (hide_python_error body w)) = indicator w
  /\ indicator (final_state (hide_python_error body w)) <> B
  /\ returns (hide_python_error body w) = returns (body (set_indicator no_error w)).
Proof.
  intros P _ Hdiff.
  assert (E : indicator (final_state (hide_python_error body w)) = indicator w
              /\ returns (hide_python_error body w)
                 = returns (body (set_indicator no_error w))).
  { unfold hide_python_error, bind.
    rewrite HidePythonError_new_pending by exact P.
    unfold with_destructor, HidePythonError_delete.
    cbn [ptype_ pvalue_ ptraceback_].
    fold (PyErr_Occurred w). apply ptr_true_nonnull in P. rewrite P.
    unfold PyErr_Restore.
    destruct (body (set_indicator no_error w)) as [a s|e s]; cbn;
      unfold PyErr_Occurred; now rewrite indicator_eta. }
  destruct E as [E1 E2]. split; [exact E1|]. split; [|exact E2].
  rewrite E1. congruence.
Qed.

Lemma HidePythonError_restores_saved_error_witness :
  PyErr_Occurred Sample.failing <> nullptr
  /\ indicator (final_state
                  (Sample.raise_type_error (set_indicator no_error Sample.failing)))
     = Sample.type_error
  /\ Sample.type_error <> indicator Sample.failing
  /\ indicator (final_state (hide_python_error Sample.raise_type_error Sample.failing))
     = Sample.value_error.
Proof.
  assert (H1 : PyErr_Occurred Sample.failing <> nullptr) by discriminate.
  assert (H2 : indicator (final_state
                 (Sample.raise_type_error (set_indicator no_error Sample.failing)))
               = Sample.type_error) by reflexivity.
  assert (H3 : Sample.type_error <> indicator Sample.failing) by discriminate.
  split; [exact H1|]. split; [exact H2|]. split; [exact H3|].
  exact (proj1 (HidePythonError_restores_saved_error
                  Sample.raise_type_error Sample.failing H1 H2 H3)).
Defined.

(** C10. With nothing pending when the guard is built, its destructor
    restores nothing: the block behaves as its body alone, so an error B
    the body leaves pending is still pending after the guard is gone. *)
Theorem HidePythonError_empty_capture_keeps_later_error
    (A : Type) (body : M World cpp_exception A) (w : World) (B : ErrorIndicator) :
  PyErr_Occurred w = nullptr ->
  indicator (final_state (body w)) = B ->
  hide_python_error body w = body w
  /\ indicator (final_state (hide_python_error body w)) = B.
Proof.
  intros P HB.
  assert (E : hide_python_error body w = body w).
  { unfold hide_python_error, bind. rewrite HidePythonError_new_nothing by exact P.
    unfold with_destructor, HidePythonError_delete. cbn.
    now destruct (body w). }
  split; [exact E|]. now rewrite E.
Qed.

Lemma HidePythonError_empty_capture_keeps_later_error_witness :
  PyErr_Occurred Sample.quiet = nullptr
  /\ indicator (final_state (Sample.raise_type_error Sample.quiet))
     = Sample.type_error
  /\ indicator (final_state (hide_python_error Sample.raise_type_error Sample.quiet))
     = Sample.type_error.
Proof.
  assert (H1 : PyErr_Occurred Sample.quiet = nullptr) by reflexivity.
  assert (H2 : indicator (final_state (Sample.raise_type_error Sample.quiet))
               = Sample.type_error) by reflexivity.
  split; [exact H1|]. split; [exact H2|].
  exact (proj2 (HidePythonError_empty_capture_keeps_later_error
                  Sample.raise_type_error Sample.quiet H1 H2)).
Defined.

(* ================================================================== *)
(** * Cancellation *)

(** C3. A [PyError] answers [is_keyboard_interrupt] with true exactly when
    its type handle is [PyExc_KeyboardInterrupt]; building a [PyError]
    from a pending keyboard interrupt makes one call, the progress
    manager's [set_status_cancelled], and none to the error sink, and from
    anything else makes no call at all; an [Error] always answers false. *)
Theorem cancellation_classification :
  (forall pe : PyError,
     PyError_is_keyboard_interrupt pe = true
     <-> exc_type pe = Some PyExc_KeyboardInterrupt)
  /\ (forall w : World, exists pe w1,
        PyError_new w = Ret pe w1
        /\ exc_type pe = curexc_type (indicator w)
        /\ indicator w1 = no_error
        /\ events w1 =
             (events w ++ (if PyError_is_keyboard_interrupt pe
                           then [Ev_set_status_cancelled] else []))%list)
  /\ (forall e : Error, Error_is_keyboard_interrupt e = false).
Proof.
  split; [|split].
  - intro pe. apply ptr_eqb_eq.
  - intro w. destruct (PyError_new_spec w) as (pe & Hnew & Ht & _).
    eexists pe, _. split; [exact Hnew|]. split; [exact Ht|].
    destruct (PyError_is_keyboard_interrupt pe); cbn.
    + now split.
    + split; [reflexivity|]. now rewrite app_nil_r.
  - reflexivity.
Qed.

(* ================================================================== *)
(** * Reporting an error to Python *)

(** A [try] block whose body throws standard exceptions only, with a
    [catch (const std::exception&)] clause that returns, returns. *)
Lemma catch_std_exception_returns
    (A : Type) (m : M World cpp_exception A)
    (h : std_exception -> M World cpp_exception A) (w : World) :
  (forall e s, m w = Throw e s -> exists se, e = Std se) ->
  (forall se s, returns (h se s) = true) ->
  returns (try_catch m (catch_std_exception h) w) = true.
Proof.
  intros Hstd Hh. unfold try_catch.
  destruct (m w) as [a s|e s] eqn:E; [reflexivity|].
  destruct (Hstd e s eq_refl) as [se ->]. cbn. apply Hh.
Qed.

Lemma Error_to_python_spec (e : Error) (w : World) :
  Error_to_python e w =
    Ret tt (if heap_exhausted w
            then PyErr_SetString (Some PyExc_RuntimeError) "std::bad_alloc" w
            else PyErr_SetString (pycls_ e) (c_str (error e)) w).
Proof.
  unfold Error_to_python, try_catch, bind, stream_str.
  destruct (heap_exhausted w); reflexivity.
Qed.

(** C7. [Error::to_python] always returns.  When rendering the message
    throws (the copy of the stream's contents cannot be allocated), the
    exception is caught inside and [PyExc_RuntimeError] is set with the
    caught exception's message; otherwise the error's own class is set with
    the rendered message. *)
Theorem Error_to_python_never_throws (e : Error) (w : World) :
  returns (Error_to_python e w) = true
  /\ final_state (Error_to_python e w) =
       (if returns (stream_str e w)
        then PyErr_SetString (pycls_ e) (c_str (error e)) w
        else PyErr_SetString (Some PyExc_RuntimeError) "std::bad_alloc" w)
  /\ (returns (stream_str e w) = false ->
      indicator (final_state (Error_to_python e w)) =
        mkIndicator (Some PyExc_RuntimeError)
                    (Some (PyUnicode "std::bad_alloc")) nullptr).
Proof.
  rewrite Error_to_python_spec. unfold stream_str.
  destruct (heap_exhausted w); cbn; repeat split; intros; try reflexivity.
  discriminate.
Qed.

(** What [exception_to_python] does after its first statement. *)
Lemma exception_to_python_release (e : std_exception) (w : World) :
  exists w' rest,
    exception_to_python true e w = Ret tt w'
    /\ events w' = (events w ++ rest)%list
    /\ no_assertion_failed rest = true.
Proof.
  unfold exception_to_python, bind, wassert.
  destruct e as [msg|err|perr].
  - unfold gets. destruct (ptr_true (PyErr_Occurred w)); cbn.
    + exists w, []. now rewrite app_nil_r.
    + destruct (is_string_empty msg); eexists _, [_]; cbn; repeat split.
  - rewrite Error_to_python_spec.
    destruct (heap_exhausted w); eexists _, [_]; cbn; repeat split.
  - cbn. eexists _, []. cbn. rewrite app_nil_r. repeat split.
Qed.

Lemma exception_to_python_debug (e : std_exception) (w : World) :
  exception_to_python false e w =
    exception_to_python true e
      (if (num_threads_in_team w =? 0)%N then w
       else log_event (Ev_assertion_failed "dt::num_threads_in_team() == 0") w).
Proof.
  unfold exception_to_python, bind, wassert.
  destruct (num_threads_in_team w =? 0)%N; reflexivity.
Qed.

(** C4. [exception_to_python] checks first that no thread team is running.
    In a debug build a call made while the team size is not zero records
    the failed assertion before anything else, and a call made with team
    size zero records none; a build without assertions never records
    one. *)
Theorem exception_to_python_checks_quiescence (e : std_exception) (w : World) :
  (exists w' rest,
     exception_to_python false e w = Ret tt w'
     /\ events w' =
          (events w
           ++ (if (num_threads_in_team w =? 0)%N then []
               else [Ev_assertion_failed "dt::num_threads_in_team() == 0"])
           ++ rest)%list
     /\ no_assertion_failed rest = true)
  /\ (exists w' rest,
        exception_to_python true e w = Ret tt w'
        /\ events w' = (events w ++ rest)%list
        /\ no_assertion_failed rest = true).
Proof.
  split; [|apply exception_to_python_release].
  rewrite exception_to_python_debug.
  destruct (num_threads_in_team w =? 0)%N.
  - apply exception_to_python_release.
  - destruct (exception_to_python_release e
                (log_event (Ev_assertion_failed "dt::num_threads_in_team() == 0") w))
      as (w' & rest & Hrun & Hev & Hrest).
    exists w', rest. split; [exact Hrun|]. split; [|exact Hrest].
    rewrite Hev. cbn [log_event events]. now rewrite <- app_assoc.
Qed.

(* ================================================================== *)
(** * Warnings *)

(** C8. When the message is rendered, [Warning::emit] makes one call to
    [PyErr_WarnEx], with the warning's class, that message and stack level
    1; on the answer 0 it returns, and on any other answer it throws a
    [PyError] that has taken over the error [PyErr_WarnEx] left pending.  So
    it throws exactly when the answer is not 0. *)
Theorem Warning_emit_escalation
    (e : Warning) (w : World) (errstr : string) (r : Z) (w1 : World) :
  stream_str e w = Ret errstr w ->
  PyErr_WarnEx (pycls_ e) (c_str errstr) 1 w = (r, w1) ->
  errstr = error e
  /\ events w1 = (events w ++ [Ev_PyErr_WarnEx (pycls_ e) (c_str errstr) 1])%list
  /\ (r = 0%Z -> Warning_emit e w = Ret tt w1)
  /\ (r <> 0%Z ->
      exists pe w2,
        Warning_emit e w = Throw (Std (PyErrorExc pe)) w2
        /\ PyError_new w1 = Ret pe w2
        /\ mkIndicator (exc_type pe) (exc_value pe) (exc_traceback pe)
           = indicator w1
        /\ indicator w2 = no_error)
  /\ (returns (Warning_emit e w) = false <-> r <> 0%Z).
Proof.
  intros Hstr Hwarn.
  assert (Hemit : Warning_emit e w =
                  if negb (r =? 0)%Z
                  then (pe <- PyError_new ;; throw (Std (PyErrorExc pe)))%monad w1
                  else Ret tt w1).
  { unfold Warning_emit, bind at 1. rewrite Hstr, Hwarn. reflexivity. }
  destruct (PyError_new_spec w1) as (pe & Hnew & Ht & Hv & Htb).
  split; [|split; [|split; [|split]]].
  - unfold stream_str in Hstr.
    destruct (heap_exhausted w); [discriminate Hstr|]. now injection Hstr.
  - unfold PyErr_WarnEx in Hwarn.
    destruct (warnings_filter w (pycls_ e) (c_str errstr));
      now injection Hwarn as _ <-.
  - intros ->. exact Hemit.
  - intro Hr. apply Z.eqb_neq in Hr. rewrite Hr in Hemit. cbn in Hemit.
    eexists pe, _. split; [|split; [exact Hnew|split]].
    + rewrite Hemit. unfold bind. rewrite Hnew. reflexivity.
    + rewrite Ht, Hv, Htb. apply indicator_eta.
    + now destruct (PyError_is_keyboard_interrupt pe).
  - rewrite Hemit. destruct (Z.eqb_spec r 0) as [->|Hr]; cbn.
    + split; [discriminate|intro H; now elim H].
    + unfold bind. rewrite Hnew. cbn. split; [intros _; exact Hr|reflexivity].
Qed.

Lemma Warning_emit_escalation_witness :
  stream_str Sample.a_warning Sample.strict = Ret "slow path" Sample.strict
  /\ fst (PyErr_WarnEx (pycls_ Sample.a_warning) (c_str "slow path") 1
            Sample.strict) = (-1)%Z
  /\ returns (Warning_emit Sample.a_warning Sample.strict) = false.
Proof.
  assert (H1 : stream_str Sample.a_warning Sample.strict
               = Ret "slow path" Sample.strict) by reflexivity.
  split; [exact H1|]. split; [reflexivity|].
  refine (proj2 (proj2 (proj2 (proj2 (proj2
    (@Warning_emit_escalation Sample.a_warning Sample.strict "slow path"
       (-1)%Z _ H1 eq_refl))))) _).
  discriminate.
Defined.

(* ================================================================== *)
(** * Escaping *)

Lemma append_nil_r (s : string) : s ++ "" = s.
Proof. induction s as [|c s IH]; cbn; [reflexivity|now rewrite IH]. Qed.

Lemma append_assoc (s t u : string) : (s ++ t) ++ u = s ++ (t ++ u).
Proof. induction s as [|c s IH]; cbn; [reflexivity|now rewrite IH]. Qed.

Ltac each_byte c :=
  destruct c as [[] [] [] [] [] [] [] []].

(** ** One character *)

(** The operator appends, and what it appends depends on the byte only. *)
Lemma Error_put_char_appends (c : ascii) (e : Error) :
  error (Error_put_char c e) = error e ++ emitted c
  /\ pycls_ (Error_put_char c e) = pycls_ e.
Proof.
  unfold emitted, Error_put_char, stream_put_char.
  repeat match goal with
         | |- context [if ?b then _ else _] => destruct b
         end;
    cbn [error pycls_ stream_put]; split; try reflexivity;
    now rewrite ?append_assoc.
Qed.

(** The digit arithmetic of the source gives the lowercase digits. *)
Lemma hex_digit_lower_hex (d : N) :
  (d < 16)%N -> hex_digit d = lower_hex d.
Proof.
  intro H.
  assert (C : In d (map N.of_nat (seq 0 16))).
  { apply in_map_iff. exists (N.to_nat d). split; [apply N2Nat.id|].
    apply in_seq. lia. }
  cbn in C.
  repeat (destruct C as [<-|C]; [reflexivity|]). destruct C.
Qed.

(** C6, what the code does.  The byte 1 is written as two backslashes, x,
    0, 1, where the rule asks for one backslash, x, 0, 1.  For every byte:
    the operator appends to the stream a text that depends on the byte
    only, and that text is what the rule says, except that a byte escaped
    in hexadecimal gets one more backslash in front, and that the byte 127
    is written as it is. *)
Theorem Error_put_char_hex_escape_doubles_backslash :
  emitted "001"%char = String backslash (String backslash "x01")
  /\ spec_escape_char "001"%char = String backslash "x01"
  /\ (forall (c : ascii) (e : Error),
        error (Error_put_char c e) = error e ++ emitted c)
  /\ (forall c : ascii,
        emitted c =
          if Ascii.eqb c "127"%char then String c EmptyString
          else if offending c
                  && negb (Ascii.eqb c "010"%char || Ascii.eqb c "013"%char
                           || Ascii.eqb c "009"%char
                           || Ascii.eqb c backslash || Ascii.eqb c backtick)
               then String backslash (spec_escape_char c)
               else spec_escape_char c).
Proof.
  split; [reflexivity|]. split; [reflexivity|].
  split; [intros c e; apply Error_put_char_appends|].
  intro c. each_byte c; vm_compute; reflexivity.
Qed.

(** ** A whole string *)

Lemma ticks_and_slashes_bound (s : string) :
  (ticks_and_slashes s <= N.of_nat (String.length s))%N.
Proof.
  induction s as [|c s IH]; cbn [ticks_and_slashes String.length]; [lia|].
  destruct (is_tick_or_slash c); lia.
Qed.

Lemma count_loop_spec (s : string) (count : N) :
  (count + N.of_nat (String.length s) < 2 ^ 64)%N ->
  count_loop s count = (count + ticks_and_slashes s)%N.
Proof.
  revert count.
  induction s as [|c s IH]; intros count H; cbn [count_loop ticks_and_slashes].
  - lia.
  - cbn [String.length] in H.
    assert (B := ticks_and_slashes_bound s).
    unfold size_t_add. rewrite N.mod_small by (destruct (is_tick_or_slash c); lia).
    rewrite IH by (destruct (is_tick_or_slash c); lia).
    lia.
Qed.

Lemma ticks_and_slashes_zero (s : string) :
  ticks_and_slashes s = 0%N <-> has_tick_or_slash s = false.
Proof.
  induction s as [|c s IH]; cbn [ticks_and_slashes has_tick_or_slash].
  - split; reflexivity.
  - destruct (is_tick_or_slash c); cbn [orb].
    + split; [lia|discriminate].
    + rewrite <- IH. split; lia.
Qed.

Lemma escape_loop_spec (s out : string) :
  escape_loop s out = out ++ escape_each s.
Proof.
  revert out.
  induction s as [|c s IH]; intro out; cbn [escape_loop escape_each].
  - now rewrite append_nil_r.
  - rewrite IH. unfold tick_slash_escaped.
    destruct (is_tick_or_slash c); now rewrite !append_assoc.
Qed.

Lemma escape_each_clean (s : string) :
  has_tick_or_slash s = false -> escape_each s = s.
Proof.
  induction s as [|c s IH]; cbn [has_tick_or_slash escape_each]; [reflexivity|].
  intro H. apply orb_false_iff in H as [Hc Hs].
  unfold tick_slash_escaped. rewrite Hc. cbn. now rewrite IH.
Qed.

Lemma tick_slash_escaped_printable (c : ascii) :
  printable_ascii c = true -> tick_slash_escaped c = spec_escape_char c.
Proof.
  each_byte c; vm_compute; intro H; try reflexivity; discriminate H.
Qed.

Lemma escape_each_printable (s : string) :
  all_printable s = true -> escape_each s = spec_escape s.
Proof.
  induction s as [|c s IH]; cbn [all_printable escape_each spec_escape];
    [reflexivity|].
  intro H. apply andb_true_iff in H as [Hc Hs].
  now rewrite IH, tick_slash_escaped_printable.
Qed.

(** C5 as stated fails: a newline is outside the printable range and the
    rule writes it as backslash, n, but [escape_backticks] returns the
    newline untouched. *)
Lemma escape_backticks_keeps_newline :
  offending "010"%char = true
  /\ spec_escape newline_string = String backslash "n"
  /\ escape_backticks newline_string = newline_string
  /\ escape_backticks newline_string <> spec_escape newline_string.
Proof.
  repeat split; try reflexivity. vm_compute. discriminate.
Qed.

(** C5, amended.  For every string (its length fits [size_t]),
    [escape_backticks] puts a backslash in front of each backtick and each
    backslash and copies every other byte as it is, bytes outside the
    printable range too.  So a string with no backtick and no backslash
    comes back equal to itself, and on strings of printable bytes the
    result is what the character rule gives. *)
Theorem escape_backticks_escapes_ticks_and_slashes_only (s : string) :
  (N.of_nat (String.length s) < 2 ^ 64)%N ->
  escape_backticks s = escape_each s
  /\ (has_tick_or_slash s = false -> escape_backticks s = s)
  /\ (all_printable s = true -> escape_backticks s = spec_escape s)
  /\ (forall c : ascii,
        is_tick_or_slash c = false ->
        escape_backticks (String c EmptyString) = String c EmptyString).
Proof.
  intro Hlen.
  assert (E : escape_backticks s = escape_each s).
  { unfold escape_backticks. rewrite count_loop_spec by lia. cbn [N.add].
    destruct (N.eqb_spec (ticks_and_slashes s) 0) as [Z|NZ].
    - apply ticks_and_slashes_zero in Z. now rewrite escape_each_clean.
    - apply escape_loop_spec. }
  split; [exact E|]. split; [|split].
  - intro H. rewrite E. now apply escape_each_clean.
  - intro H. rewrite E. now apply escape_each_printable.
  - intros c Hc. unfold escape_backticks. cbn. unfold size_t_add.
    rewrite Hc. reflexivity.
Qed.

Lemma escape_backticks_escapes_ticks_and_slashes_only_witness :
  (N.of_nat (String.length "a`b") < 2 ^ 64)%N
  /\ escape_backticks "a`b" = escape_each "a`b".
Proof.
  assert (H : (N.of_nat (String.length "a`b") < 2 ^ 64)%N)
    by (vm_compute; reflexivity).
  split; [exact H|].
  exact (proj1 (escape_backticks_escapes_ticks_and_slashes_only "a`b" H)).
Defined.

(* ================================================================== *)
(** * The driver [execute_in_current_thread] *)

Import Parallel.

Section Driver.
Variables St Exn ThreadWorker : Type.
Variable this_thread_index : St -> N.
Context {J T : Type}
        {task_class : thread_task St Exn ThreadWorker T}
        {job_class : ThreadJob St Exn J T}.

(** If the loop ends within [fuel] iterations, it ran a sequence of pulled
    tasks and then stopped in one of the three ways. *)
Lemma execute_loop_sound (this : J) (ith : N) (fuel : nat) :
  forall (s : St) (r : Outcome St Exn unit),
    execute_loop fuel this ith s = Some r ->
    exists tasks s1,
      List.length tasks < fuel
      /\ pulled this ith s tasks s1
      /\ stops this ith s1 r.
Proof.
  induction fuel as [|fuel IH]; intros s r Hrun; [discriminate Hrun|].
  cbn [execute_loop] in Hrun.
  destruct (get_next_task this ith s) as [[task|] s1|e s1] eqn:Hget.
  - destruct (execute task None s1) as [u s2|e s2] eqn:Hexec.
    + destruct (IH _ _ Hrun) as (tasks & s3 & Hlen & Hpull & Hstop).
      exists (task :: tasks), s3. cbn [List.length]. split; [lia|].
      split; [|exact Hstop]. eapply pulled_cons; eassumption.
    + injection Hrun as <-. exists [], s. cbn [List.length]. split; [lia|].
      split; [constructor|]. eapply stops_task_throws; eassumption.
  - injection Hrun as <-. exists [], s. cbn [List.length]. split; [lia|].
    split; [constructor|]. now apply stops_null.
  - injection Hrun as <-. exists [], s. cbn [List.length]. split; [lia|].
    split; [constructor|]. now apply stops_get_throws.
Qed.

(** Fuel beyond the number of tasks pulled is enough. *)
Lemma execute_loop_complete (this : J) (ith : N) :
  forall (s : St) (tasks : list T) (s1 : St),
    pulled this ith s tasks s1 ->
    forall (r : Outcome St Exn unit) (fuel : nat),
      stops this ith s1 r ->
      List.length tasks < fuel ->
      execute_loop fuel this ith s = Some r.
Proof.
  induction 1 as [s|s task s1 u s2 tasks s3 Hget Hexec _ IH];
    intros r fuel Hstop Hlen;
    (destruct fuel as [|fuel]; [cbn [List.length] in Hlen; lia|]);
    cbn [execute_loop].
  - destruct Hstop as [s1 Hget|e s1 Hget|task s1 e s2 Hget Hexec];
      rewrite Hget; [reflexivity|reflexivity|now rewrite Hexec].
  - rewrite Hget, Hexec. apply IH; [exact Hstop|cbn [List.length] in Hlen; lia].
Qed.

(** C9. [execute_in_current_thread] ends with outcome [r] exactly when,
    for [ith] the calling thread's own index, a sequence of tasks was
    handed out by [get_next_task(ith)], each run to its end in the order
    pulled, and then the loop stopped: with a normal return only on a
    null task, and with a throw when a task's [execute] (or the pull
    itself) threw, that exception being the driver's own outcome.  Any
    fuel above the number of tasks pulled reaches the end. *)
Theorem execute_in_current_thread_drives
    (this : J) (s : St) (r : Outcome St Exn unit) (fuel : nat) :
  execute_in_current_thread this_thread_index fuel this s = Some r
  <-> exists tasks s1,
        List.length tasks < fuel
        /\ pulled this (this_thread_index s) s tasks s1
        /\ stops this (this_thread_index s) s1 r.
Proof.
  unfold execute_in_current_thread. split.
  - apply execute_loop_sound.
  - intros (tasks & s1 & Hlen & Hpull & Hstop).
    eapply execute_loop_complete; eassumption.
Qed.
End Driver.

(** The driver on a queue of two tasks, and on a queue whose second task
    throws: the third task is never pulled. *)
Lemma execute_in_current_thread_drives_witness :
  execute_in_current_thread QueueJob.worker 3 tt (QueueJob.mkState [2; 3] 0 7)
    = Some (Ret tt (QueueJob.mkState [] 5 7))
  /\ execute_in_current_thread QueueJob.worker 3 tt (QueueJob.mkState [2; 0; 3] 0 7)
     = Some (Throw 0 (QueueJob.mkState [3] 2 7)).
Proof.
  split.
  - apply (proj2 (execute_in_current_thread_drives QueueJob.worker tt
                    (QueueJob.mkState [2; 3] 0 7) _ 3)).
    exists [2; 3], (QueueJob.mkState [] 5 7). split; [cbn; lia|]. split.
    + eapply Parallel.pulled_cons; [reflexivity|reflexivity|].
      eapply Parallel.pulled_cons; [reflexivity|reflexivity|].
      apply Parallel.pulled_nil.
    + now apply Parallel.stops_null.
  - apply (proj2 (execute_in_current_thread_drives QueueJob.worker tt
                    (QueueJob.mkState [2; 0; 3] 0 7) _ 3)).
    exists [2], (QueueJob.mkState [0; 3] 2 7). split; [cbn; lia|]. split.
    + eapply Parallel.pulled_cons; [reflexivity|reflexivity|].
      apply Parallel.pulled_nil.
    + eapply Parallel.stops_task_throws; reflexivity.
Defined.


(* ================================================================== *)
(** * More about [escape_backticks] *)

Lemma escape_backticks_as_escape_each (s : string) :
  (N.of_nat (String.length s) < 2 ^ 64)%N ->
  escape_backticks s = escape_each s.
Proof.
  intro Hlen. unfold escape_backticks.
  rewrite count_loop_spec by lia. cbn [N.add].
  destruct (N.eqb_spec (ticks_and_slashes s) 0) as [Z|NZ].
  - apply ticks_and_slashes_zero in Z. now rewrite escape_each_clean.
  - apply escape_loop_spec.
Qed.

Lemma length_append (s t : string) :
  String.length (s ++ t) = String.length s + String.length t.
Proof. induction s as [|c s IH]; cbn; [reflexivity|now rewrite IH]. Qed.

Lemma escape_each_length (s : string) :
  N.of_nat (String.length (escape_each s))
  = (N.of_nat (String.length s) + ticks_and_slashes s)%N.
Proof.
  induction s as [|c s IH]; cbn [escape_each ticks_and_slashes]; [reflexivity|].
  rewrite length_append. unfold tick_slash_escaped.
  destruct (is_tick_or_slash c); cbn [String.length]; lia.
Qed.

(** The result is longer than the input by one byte for each backtick and
    each backslash of the input, and by nothing else. *)
Theorem escape_backticks_length (s : string) :
  (N.of_nat (String.length s) < 2 ^ 64)%N ->
  N.of_nat (String.length (escape_backticks s))
  = (N.of_nat (String.length s) + ticks_and_slashes s)%N.
Proof.
  intro Hlen. rewrite escape_backticks_as_escape_each by exact Hlen.
  apply escape_each_length.
Qed.

Lemma escape_backticks_length_witness :
  (N.of_nat (String.length "a`b\c") < 2 ^ 64)%N
  /\ N.of_nat (String.length (escape_backticks "a`b\c")) = 7%N.
Proof.
  assert (H : (N.of_nat (String.length "a`b\c") < 2 ^ 64)%N)
    by (vm_compute; reflexivity).
  split; [exact H|].
  exact (escape_backticks_length "a`b\c" H).
Defined.

Lemma escape_each_app (s t : string) :
  escape_each (s ++ t) = escape_each s ++ escape_each t.
Proof.
  induction s as [|c s IH]; cbn [append escape_each]; [reflexivity|].
  now rewrite IH, append_assoc.
Qed.

(** Escaping goes through concatenation: a text put together from two
    parts is escaped as the two parts escaped one after the other. *)
Theorem escape_backticks_app (s t : string) :
  (N.of_nat (String.length (s ++ t)) < 2 ^ 64)%N ->
  escape_backticks (s ++ t) = escape_backticks s ++ escape_backticks t.
Proof.
  intro Hlen.
  rewrite (escape_backticks_as_escape_each (s ++ t)) by exact Hlen.
  rewrite length_append in Hlen.
  rewrite (escape_backticks_as_escape_each s) by lia.
  rewrite (escape_backticks_as_escape_each t) by lia.
  apply escape_each_app.
Qed.

Lemma escape_backticks_app_witness :
  (N.of_nat (String.length ("a`" ++ "\b")) < 2 ^ 64)%N
  /\ escape_backticks ("a`" ++ "\b") = escape_backticks "a`" ++ escape_backticks "\b".
Proof.
  assert (H : (N.of_nat (String.length ("a`" ++ "\b")) < 2 ^ 64)%N)
    by (vm_compute; reflexivity).
  split; [exact H|].
  exact (escape_backticks_app "a`" "\b" H).
Defined.

Lemma unescape_escape_each (s : string) :
  unescape_backticks (escape_each s) = s.
Proof.
  induction s as [|c s IH]; cbn [escape_each]; [reflexivity|].
  unfold tick_slash_escaped, is_tick_or_slash.
  destruct (Ascii.eqb_spec c backtick) as [->|Ntick]; cbn.
  - now rewrite IH.
  - destruct (Ascii.eqb_spec c backslash) as [->|Nslash]; cbn.
    + now rewrite IH.
    + apply Ascii.eqb_neq in Nslash. rewrite Nslash. now rewrite IH.
Qed.

(** Escaping loses nothing: dropping the added backslashes gives the input
    back, so two different inputs never have the same escaped text. *)
Theorem escape_backticks_injective (s t : string) :
  (N.of_nat (String.length s) < 2 ^ 64)%N ->
  (N.of_nat (String.length t) < 2 ^ 64)%N ->
  unescape_backticks (escape_backticks s) = s
  /\ (escape_backticks s = escape_backticks t -> s = t).
Proof.
  intros Hs Ht.
  assert (R : forall u, (N.of_nat (String.length u) < 2 ^ 64)%N ->
                        unescape_backticks (escape_backticks u) = u).
  { intros u Hu. rewrite escape_backticks_as_escape_each by exact Hu.
    apply unescape_escape_each. }
  split; [now apply R|].
  intro E. rewrite <- (R s Hs), <- (R t Ht). now rewrite E.
Qed.

Lemma escape_backticks_injective_witness :
  (N.of_nat (String.length "a`b") < 2 ^ 64)%N
  /\ (N.of_nat (String.length "a\b") < 2 ^ 64)%N
  /\ unescape_backticks (escape_backticks "a`b") = "a`b".
Proof.
  assert (H1 : (N.of_nat (String.length "a`b") < 2 ^ 64)%N)
    by (vm_compute; reflexivity).
  assert (H2 : (N.of_nat (String.length "a\b") < 2 ^ 64)%N)
    by (vm_compute; reflexivity).
  split; [exact H1|]. split; [exact H2|].
  exact (proj1 (escape_backticks_injective "a`b" "a\b" H1 H2)).
Defined.

Lemma well_escaped_escape_each (s : string) :
  well_escaped (escape_each s) = true.
Proof.
  induction s as [|c s IH]; cbn [escape_each]; [reflexivity|].
  unfold tick_slash_escaped.
  destruct (is_tick_or_slash c) eqn:Hc; cbn.
  - now rewrite Hc, IH.
  - unfold is_tick_or_slash in Hc. apply orb_false_iff in Hc as [Ht Hs].
    now rewrite Hs, Ht, IH.
Qed.

(** In the escaped text no backtick and no backslash stands on its own:
    read from the left, each backslash is followed by the backtick or
    backslash it escapes, and every other byte is neither of the two. *)
Theorem escape_backticks_well_escaped (s : string) :
  (N.of_nat (String.length s) < 2 ^ 64)%N ->
  well_escaped (escape_backticks s) = true.
Proof.
  intro Hlen. rewrite escape_backticks_as_escape_each by exact Hlen.
  apply well_escaped_escape_each.
Qed.

Lemma escape_backticks_well_escaped_witness :
  (N.of_nat (String.length "``\") < 2 ^ 64)%N
  /\ well_escaped (escape_backticks "``\") = true.
Proof.
  assert (H : (N.of_nat (String.length "``\") < 2 ^ 64)%N)
    by (vm_compute; reflexivity).
  split; [exact H|].
  exact (escape_backticks_well_escaped "``\" H).
Defined.

(* ================================================================== *)
(** * More about [Error::operator<<] *)

Lemma all_bytes_app (p : ascii -> bool) (s t : string) :
  all_bytes p (s ++ t) = all_bytes p s && all_bytes p t.
Proof.
  induction s as [|c s IH]; cbn [append all_bytes]; [reflexivity|].
  now rewrite IH, andb_assoc.
Qed.

Lemma Error_put_chars_spec (s : string) (e : Error) :
  error (Error_put_chars s e) = error e ++ error (Error_put_chars s (Error_new nullptr))
  /\ pycls_ (Error_put_chars s e) = pycls_ e.
Proof.
  revert e.
  assert (G : forall s e, exists text,
             (forall e', error (Error_put_chars s e') = error e' ++ text)
             /\ pycls_ (Error_put_chars s e) = pycls_ e).
  { clear s. induction s as [|c s IH]; intro e; cbn [Error_put_chars].
    - exists EmptyString. split; [intro; now rewrite append_nil_r|reflexivity].
    - destruct (IH (Error_put_char c e)) as (text & Htext & Hcls).
      exists (emitted c ++ text). split.
      + intro e'. rewrite Htext.
        rewrite (proj1 (Error_put_char_appends c e')). apply append_assoc.
      + rewrite Hcls. apply Error_put_char_appends. }
  intros e. destruct (G s e) as (text & Htext & Hcls).
  split; [|exact Hcls].
  rewrite !Htext. reflexivity.
Qed.

Lemma emitted_seven_bit (c : ascii) : all_bytes seven_bit_text (emitted c) = true.
Proof. each_byte c; vm_compute; reflexivity. Qed.

(** Whatever bytes are streamed in as [char]s, the text added to the
    message has bytes from 0x20 to 0x7f only: no control character below
    0x20 and no byte above 0x7f gets through. *)
Theorem Error_put_chars_seven_bit (s : string) (e : Error) :
  exists text,
    error (Error_put_chars s e) = error e ++ text
    /\ all_bytes seven_bit_text text = true.
Proof.
  revert e. induction s as [|c s IH]; intro e; cbn [Error_put_chars].
  - exists EmptyString. split; [now rewrite append_nil_r|reflexivity].
  - destruct (IH (Error_put_char c e)) as (text & Htext & Hall).
    exists (emitted c ++ text). split.
    + rewrite Htext, (proj1 (Error_put_char_appends c e)). apply append_assoc.
    + now rewrite all_bytes_app, emitted_seven_bit, Hall.
Qed.

Lemma unemit_emitted (c : ascii) : unemit (emitted c) = Some c.
Proof. each_byte c; vm_compute; reflexivity. Qed.

(** For one byte the written text tells the byte: it can be read back, so
    two different bytes are never written the same way. *)
Theorem emitted_injective (c d : ascii) :
  unemit (emitted c) = Some c
  /\ (emitted c = emitted d -> c = d).
Proof.
  split; [apply unemit_emitted|].
  intro E. assert (H : Some c = Some d).
  { rewrite <- (unemit_emitted c), <- (unemit_emitted d). now rewrite E. }
  now injection H.
Qed.

Lemma emitted_injective_witness :
  emitted "010"%char = emitted "010"%char
  /\ unemit (emitted "010"%char) = Some "010"%char.
Proof.
  split; [reflexivity|].
  exact (proj1 (emitted_injective "010"%char "010"%char)).
Defined.

(** For a sequence of bytes this is lost: the single byte 0x01 and the four
    bytes backslash, x, 0, 1, streamed as [char]s into the same error, give
    the same message. *)
Theorem Error_put_chars_collision :
  exists s t : string,
    s <> t
    /\ forall e : Error, Error_put_chars s e = Error_put_chars t e.
Proof.
  exists (String "001"%char EmptyString), (String backslash "x01").
  split; [discriminate|].
  intros [text cls]. cbn [Error_put_chars].
  unfold Error_put_char, stream_put_char, stream_put. cbn.
  now rewrite !append_assoc.
Qed.

Lemma emitted_seven_bit_input (c : ascii) :
  seven_bit_text c = true -> emitted c = tick_slash_escaped c.
Proof.
  each_byte c; vm_compute; intro H; try reflexivity; discriminate H.
Qed.

Lemma Error_put_chars_text (s : string) (e : Error) :
  all_bytes seven_bit_text s = true ->
  error (Error_put_chars s e) = error e ++ escape_each s.
Proof.
  revert e. induction s as [|c s IH]; intros e H;
    cbn [Error_put_chars escape_each all_bytes] in *.
  - now rewrite append_nil_r.
  - apply andb_true_iff in H as [Hc Hs].
    rewrite IH by exact Hs.
    rewrite (proj1 (Error_put_char_appends c e)), emitted_seven_bit_input by exact Hc.
    apply append_assoc.
Qed.

(** On a text whose bytes all lie between 0x20 and 0x7f the two ways of
    escaping agree: streaming the bytes one by one as [char]s adds exactly
    [escape_backticks] of the text. *)
Theorem Error_put_chars_is_escape_backticks (s : string) (e : Error) :
  (N.of_nat (String.length s) < 2 ^ 64)%N ->
  all_bytes seven_bit_text s = true ->
  error (Error_put_chars s e) = error e ++ escape_backticks s
  /\ pycls_ (Error_put_chars s e) = pycls_ e.
Proof.
  intros Hlen H. split; [|apply Error_put_chars_spec].
  rewrite escape_backticks_as_escape_each by exact Hlen.
  now apply Error_put_chars_text.
Qed.

Lemma Error_put_chars_is_escape_backticks_witness :
  (N.of_nat (String.length "col `x`") < 2 ^ 64)%N
  /\ all_bytes seven_bit_text "col `x`" = true
  /\ error (Error_put_chars "col `x`" (Error_new nullptr))
     = escape_backticks "col `x`".
Proof.
  assert (H1 : (N.of_nat (String.length "col `x`") < 2 ^ 64)%N)
    by (vm_compute; reflexivity).
  assert (H2 : all_bytes seven_bit_text "col `x`" = true) by reflexivity.
  split; [exact H1|]. split; [exact H2|].
  exact (proj1 (Error_put_chars_is_escape_backticks "col `x`" (Error_new nullptr) H1 H2)).
Defined.

Lemma Error_put_spec (f : fragment) (e : Error) :
  error (Error_put f e) = error e ++ rendering f
  /\ pycls_ (Error_put f e) = pycls_ e.
Proof.
  destruct f as [v|v|c]; cbn [Error_put rendering].
  - now split.
  - now split.
  - apply Error_put_char_appends.
Qed.

Lemma Error_put_all_spec (fs : list fragment) (e : Error) :
  error (Error_put_all fs e) = error e ++ concat_strings (map rendering fs)
  /\ pycls_ (Error_put_all fs e) = pycls_ e.
Proof.
  unfold Error_put_all. revert e.
  induction fs as [|f fs IH]; intro e; cbn [fold_left map concat_strings].
  - now rewrite append_nil_r.
  - destruct (IH (Error_put f e)) as [Htext Hcls].
    destruct (Error_put_spec f e) as [Hf Hfc].
    rewrite Htext, Hcls, Hf, Hfc. split; [apply append_assoc|reflexivity].
Qed.

(** A chain of [<<] on a new error keeps the class the error was built
    with, and [to_string] gives the texts of the fragments one after the
    other in the order of the calls (when the copy can be allocated;
    otherwise [to_string] throws and the error is as it was). *)
Theorem Error_chain_to_string
    (cls : PyObjectPtr) (fs : list fragment) (w : World) :
  pycls_ (Error_put_all fs (Error_new cls)) = cls
  /\ Error_to_string (Error_put_all fs (Error_new cls)) w =
       (if heap_exhausted w then Throw bad_alloc w
        else Ret (concat_strings (map rendering fs)) w).
Proof.
  destruct (Error_put_all_spec fs (Error_new cls)) as [Htext Hcls].
  split; [exact Hcls|].
  unfold Error_to_string, stream_str. rewrite Htext. reflexivity.
Qed.

(* ================================================================== *)
(** * More about [exception_to_python] *)

Lemma sink_calls_snoc (evs : list Event) (ev : Event) :
  sink_calls (evs ++ [ev]) = sink_calls evs + (if is_sink_call ev then 1 else 0).
Proof.
  unfold sink_calls. rewrite filter_app, length_app. cbn [filter].
  destruct (is_sink_call ev); reflexivity.
Qed.

(** One call reports at most once: [PyErr_SetString] is called exactly
    once for an [Error], never for a [PyError] (which is restored, not
    set), and for any other exception once when nothing is pending and not
    at all when an error is pending already.  The build makes no
    difference. *)
Theorem exception_to_python_sink_calls
    (NDEBUG : bool) (e : std_exception) (w : World) :
  sink_calls (events (final_state (exception_to_python NDEBUG e w)))
  = sink_calls (events w)
    + match e with
      | ErrorExc _ => 1
      | PyErrorExc _ => 0
      | StdException _ => if ptr_true (PyErr_Occurred w) then 0 else 1
      end.
Proof.
  unfold exception_to_python, bind, wassert.
  destruct NDEBUG; [|destruct (num_threads_in_team w =? 0)%N];
    destruct e as [msg|err|perr];
    rewrite ?Error_to_python_spec; unfold gets, PyErr_Occurred;
    cbn [log_event indicator];
    try destruct (ptr_true (curexc_type (indicator w)));
    try destruct (is_string_empty (what_of (StdException msg)));
    try destruct (heap_exhausted _);
    cbn [final_state negb modify ret PyError_to_python PyErr_SetString
         PyErr_Restore set_indicator log_event events];
    rewrite ?sink_calls_snoc; cbn [is_sink_call]; lia.
Qed.




(* ================================================================== *)
(** * More about [PyError] *)

(** A Python error taken into a [PyError] and later handed to
    [exception_to_python] is pending again exactly as it was, in any
    build. *)
Theorem PyError_reported_as_captured (NDEBUG : bool) (w : World) :
  exists pe w1,
    PyError_new w = Ret pe w1
    /\ indicator (final_state (exception_to_python NDEBUG (PyErrorExc pe) w1))
       = indicator w.
Proof.
  destruct (PyError_new_spec w) as (pe & Hnew & Ht & Hv & Htb).
  eexists pe, _. split; [exact Hnew|].
  unfold exception_to_python, bind, wassert.
  destruct NDEBUG; [|destruct (num_threads_in_team _ =? 0)%N];
    cbn; rewrite Ht, Hv, Htb; apply indicator_eta.
Qed.

(** [to_python] a second time, or on a [PyError] built when nothing was
    pending, restores three null handles: whatever error is pending at
    that moment is wiped and nothing is pending afterwards. *)
Theorem PyError_to_python_empty_clears (pe : PyError) (w w' : World) :
  (exists pe1 w1,
     PyError_to_python pe w = Ret pe1 w1
     /\ indicator (final_state (PyError_to_python pe1 w')) = no_error)
  /\ (PyErr_Occurred w = nullptr ->
      curexc_value (indicator w) = nullptr ->
      curexc_traceback (indicator w) = nullptr ->
      exists pe0 w0,
        PyError_new w = Ret pe0 w0
        /\ indicator (final_state (PyError_to_python pe0 w')) = no_error).
Proof.
  split.
  - eexists _, _. split; reflexivity.
  - intros Ht Hv Htb.
    destruct (PyError_new_spec w) as (pe0 & Hnew & Ht0 & Hv0 & Htb0).
    eexists pe0, _. split; [exact Hnew|].
    cbn. unfold PyErr_Occurred in Ht. now rewrite Ht0, Hv0, Htb0, Ht, Hv, Htb.
Qed.

Lemma PyError_to_python_empty_clears_witness :
  PyErr_Occurred Sample.quiet = nullptr
  /\ exists pe0 w0,
       PyError_new Sample.quiet = Ret pe0 w0
       /\ indicator (final_state (PyError_to_python pe0 Sample.failing)) = no_error.
Proof.
  split; [reflexivity|].
  exact (proj2 (PyError_to_python_empty_clears
                  (mkPyError (Error_new nullptr) nullptr nullptr nullptr)
                  Sample.quiet Sample.failing)
               eq_refl eq_refl eq_refl).
Defined.

(** The references of a captured error are given up exactly once.  The
    [PyError] holds what the indicator held and the indicator holds
    nothing; after a move the new object holds them and the old one
    nothing, so only one destructor releases them; after [to_python] the
    indicator holds them again and the destructor releases nothing. *)
Theorem PyError_references_conserved (w : World) :
  exists pe w1,
    PyError_new w = Ret pe w1
    /\ PyError_delete pe = held (indicator w)
    /\ held (indicator w1) = []
    /\ PyError_delete (fst (PyError_move_new pe)) = held (indicator w)
    /\ PyError_delete (snd (PyError_move_new pe)) = []
    /\ base (fst (PyError_move_new pe)) = base pe
    /\ exists pe' w2,
         PyError_to_python (fst (PyError_move_new pe)) w1 = Ret pe' w2
         /\ held (indicator w2) = held (indicator w)
         /\ PyError_delete pe' = [].
Proof.
  destruct (PyError_new_spec w) as (pe & Hnew & Ht & Hv & Htb).
  eexists pe, _. split; [exact Hnew|].
  assert (Hd : PyError_delete pe = held (indicator w)).
  { unfold PyError_delete, held. now rewrite Ht, Hv, Htb. }
  split; [exact Hd|].
  split; [now destruct (PyError_is_keyboard_interrupt pe)|].
  split; [exact Hd|]. split; [reflexivity|].
  split; [now destruct pe as [[text cls] t v tb]|].
  eexists _, _. split; [reflexivity|]. split; [|reflexivity].
  cbn. exact Hd.
Qed.



(* ================================================================== *)
(** * More about [Warning::emit] *)



(* ================================================================== *)
(** * More about [HidePythonError] *)

Lemma hide_python_error_nothing_pending
    (A : Type) (body : M World cpp_exception A) (w : World) :
  PyErr_Occurred w = nullptr -> hide_python_error body w = body w.
Proof.
  intro P. unfold hide_python_error, bind.
  rewrite HidePythonError_new_nothing by exact P.
  unfold with_destructor, HidePythonError_delete. cbn.
  now destruct (body w).
Qed.

(** What the block comes to: the body run under the destructor of the
    guard the constructor built, from a state with nothing pending. *)
Lemma hide_python_error_unfolded
    (A : Type) (body : M World cpp_exception A) (w : World) :
  exists h w0,
    HidePythonError_new w = Ret h w0
    /\ PyErr_Occurred w0 = nullptr
    /\ events w0 = events w
    /\ hide_python_error body w
       = with_destructor body (HidePythonError_delete h) w0.
Proof.
  unfold hide_python_error, bind.
  destruct (ptr_true (PyErr_Occurred w)) eqn:P.
  - apply ptr_true_nonnull in P.
    rewrite HidePythonError_new_pending by exact P.
    eexists _, _. repeat split.
  - assert (P' : PyErr_Occurred w = nullptr)
      by (destruct (PyErr_Occurred w); [discriminate P|reflexivity]).
    rewrite HidePythonError_new_nothing by exact P'.
    eexists _, _. split; [reflexivity|]. split; [exact P'|]. now split.
Qed.


(** A guard inside a guard does nothing more than the outer guard alone:
    the inner one finds nothing pending, saves nothing and restores
    nothing. *)
Theorem hide_python_error_nested
    (A : Type) (body : M World cpp_exception A) (w : World) :
  hide_python_error (hide_python_error body) w = hide_python_error body w.
Proof.
  destruct (hide_python_error_unfolded (hide_python_error body) w)
    as (h & w0 & Hnew & Hclean & _ & Houter).
  rewrite Houter.
  unfold hide_python_error at 2, bind. rewrite Hnew.
  unfold with_destructor.
  now rewrite hide_python_error_nothing_pending by exact Hclean.
Qed.

(* ================================================================== *)
(** * More about the driver *)

Section DriverNeverStops.
Variables St Exn ThreadWorker : Type.
Variable this_thread_index : St -> N.
Context {J T : Type}
        {task_class : thread_task St Exn ThreadWorker T}
        {job_class : ThreadJob St Exn J T}.

(** The null task is the driver's only way to return: on a job that hands
    out a task at every pull, with no task and no pull throwing, the loop
    is still running after any number of iterations.  [Inv] is what holds
    of the state between iterations. *)
Theorem execute_in_current_thread_needs_null
    (this : J) (Inv : St -> Prop) (s0 : St) :
  Inv s0 ->
  (forall s, Inv s ->
     exists task s1 u s2,
       get_next_task this (this_thread_index s0) s = Ret (Some task) s1
       /\ execute task None s1 = Ret u s2
       /\ Inv s2) ->
  forall fuel : nat,
    execute_in_current_thread this_thread_index fuel this s0 = None.
Proof.
  intros H0 Hstep fuel. unfold execute_in_current_thread.
  assert (G : forall n s, Inv s ->
                execute_loop n this (this_thread_index s0) s = None).
  { induction n as [|n IH]; intros s Hs; [reflexivity|].
    cbn [execute_loop].
    destruct (Hstep s Hs) as (task & s1 & u & s2 & Hget & Hexec & Hs2).
    rewrite Hget, Hexec. now apply IH. }
  now apply G.
Qed.
End DriverNeverStops.

Lemma execute_in_current_thread_needs_null_witness :
  execute_in_current_thread (fun _ : nat => 0%N) 1000 true 0 = None.
Proof.
  apply (@execute_in_current_thread_needs_null nat nat unit
           (fun _ : nat => 0%N) bool nat EndlessJob.endless_task
           EndlessJob.endless_job true (fun _ => True) 0 I).
  intros s _. exists 1, s, tt, (s + 1). repeat split.
Defined.
